(** * The environment record of the coffee-shop front end

    Source: [frontend/src/environments/environment.ts].  The module holds one
    statement, [export const environment = { ... }], whose right-hand side is
    an object literal of boolean and string literals, one level of nesting
    deep.  A second literal of the same layout sits in a comment above it.

    The object literal is embedded as a tagged value (boolean, string or
    object with its properties in source order); the type TypeScript infers
    for it is embedded as a pair of records. *)

From Stdlib Require Import String Ascii List Bool Arith NArith.
Import ListNotations.

Open Scope string_scope.

#[local] Set Warnings "-register-all".

(** ** Values and types of the literal *)

(** The run-time values the literal is built from. An object keeps its
    properties as an association list, in the order they are written. *)
Inductive value : Type :=
| VBool (b : bool)
| VStr (s : string)
| VObj (fields : list (string * value)).

(** The TypeScript types of those values. *)
Inductive ty : Type :=
| TBoolean
| TString
| TObject (fields : list (string * ty)).

(** [typeof]-style shape of a value: property names, nesting and leaf types,
    with every literal forgotten. *)
Fixpoint shape (v : value) : ty :=
  match v with
  | VBool _ => TBoolean
  | VStr _ => TString
  | VObj fs => TObject (map (fun kv => (fst kv, shape (snd kv))) fs)
  end.

(** ** The two literals of the file *)

(** Lines 21-30: the exported record. *)
Definition environment : value :=
  VObj [
    ("production", VBool false);
    ("apiServerUrl", VStr "http://127.0.0.1:5000");
    ("auth0", VObj [
      ("url", VStr "dev-0occ77jb");
      ("audience", VStr "coffee_shop");
      ("clientId", VStr "bfK0CU5bv2J5GzzpkrWLWkfJOfmR6TdX");
      ("callbackURL", VStr "http://localhost:8100")
    ])
  ].

(** Lines 4-13: the earlier record, kept in a comment. *)
Definition environment_commented : value :=
  VObj [
    ("production", VBool false);
    ("apiServerUrl", VStr "http://127.0.0.1:5000");
    ("auth0", VObj [
      ("url", VStr "fsnd-joel");
      ("audience", VStr "coffee_api");
      ("clientId", VStr "Q3OOJUkbDk1guLXFPqFMtmuZVqm9EAPq");
      ("callbackURL", VStr "http://localhost:8100")
    ])
  ].

(** ** Property access *)

Fixpoint assoc {A : Type} (k : string) (l : list (string * A)) : option A :=
  match l with
  | [] => None
  | (k', x) :: l' => if String.eqb k k' then Some x else assoc k l'
  end.

(** [v.k] for an own property of an object. What a primitive answers
    through its prototype (the length or a character of a string) is not
    modelled: nothing below reads there. *)
Definition get_field (k : string) (v : value) : option value :=
  match v with
  | VObj fs => assoc k fs
  | _ => None
  end.

(** [v.k1.k2...]. *)
Fixpoint get_path (p : list string) (v : value) : option value :=
  match p with
  | [] => Some v
  | k :: p' =>
      match get_field k v with
      | Some x => get_path p' x
      | None => None
      end
  end.

Definition get_string (p : list string) (v : value) : option string :=
  match get_path p v with
  | Some (VStr s) => Some s
  | _ => None
  end.

Definition get_bool (p : list string) (v : value) : option bool :=
  match get_path p v with
  | Some (VBool b) => Some b
  | _ => None
  end.

(** Own property names of an object, in order. *)
Definition keys (v : value) : list string :=
  match v with
  | VObj fs => map fst fs
  | _ => []
  end.

(** Every leaf of a value with the path that reaches it and its type. *)
Fixpoint leaves (v : value) : list (list string * ty) :=
  match v with
  | VBool _ => [([], TBoolean)]
  | VStr _ => [([], TString)]
  | VObj fs =>
      flat_map
        (fun kv => map (fun pt => (fst kv :: fst pt, snd pt)) (leaves (snd kv)))
        fs
  end.

(** Every string leaf with its path and its text. *)
Fixpoint string_leaves (v : value) : list (list string * string) :=
  match v with
  | VBool _ => []
  | VStr s => [([], s)]
  | VObj fs =>
      flat_map
        (fun kv => map (fun ps => (fst kv :: fst ps, snd ps)) (string_leaves (snd kv)))
        fs
  end.

(** The same leaves read off a type. *)
Fixpoint ty_leaves (t : ty) : list (list string * ty) :=
  match t with
  | TBoolean => [([], TBoolean)]
  | TString => [([], TString)]
  | TObject fs =>
      flat_map
        (fun kt => map (fun pt => (fst kt :: fst pt, snd pt)) (ty_leaves (snd kt)))
        fs
  end.

(** ** The inferred record type *)

(** What TypeScript infers for [environment.auth0]. *)
Record Auth0 : Type := {
  url : string;
  audience : string;
  clientId : string;
  callbackURL : string
}.

(** What TypeScript infers for [environment]. *)
Record Environment : Type := {
  production : bool;
  apiServerUrl : string;
  auth0 : Auth0
}.

(** The object literal of the file with its six literals left open. *)
Definition to_value (e : Environment) : value :=
  VObj [
    ("production", VBool (production e));
    ("apiServerUrl", VStr (apiServerUrl e));
    ("auth0", VObj [
      ("url", VStr (url (auth0 e)));
      ("audience", VStr (audience (auth0 e)));
      ("clientId", VStr (clientId (auth0 e)));
      ("callbackURL", VStr (callbackURL (auth0 e)))
    ])
  ].

(** Reading a value back at the inferred type. *)
Definition of_value (v : value) : option Environment :=
  match v with
  | VObj [ (k1, VBool p); (k2, VStr a);
           (k3, VObj [ (k4, VStr u); (k5, VStr au); (k6, VStr c); (k7, VStr cb) ]) ] =>
      if (String.eqb k1 "production" && String.eqb k2 "apiServerUrl"
          && String.eqb k3 "auth0" && String.eqb k4 "url"
          && String.eqb k5 "audience" && String.eqb k6 "clientId"
          && String.eqb k7 "callbackURL")%bool
      then Some {| production := p; apiServerUrl := a;
                   auth0 := {| url := u; audience := au;
                               clientId := c; callbackURL := cb |} |}
      else None
  | _ => None
  end.

(** The exported record at its inferred type. *)
Definition environment_record : Environment :=
  {| production := false;
     apiServerUrl := "http://127.0.0.1:5000";
     auth0 := {| url := "dev-0occ77jb";
                 audience := "coffee_shop";
                 clientId := "bfK0CU5bv2J5GzzpkrWLWkfJOfmR6TdX";
                 callbackURL := "http://localhost:8100" |} |}.

(** The commented record at the same type. *)
Definition environment_commented_record : Environment :=
  {| production := false;
     apiServerUrl := "http://127.0.0.1:5000";
     auth0 := {| url := "fsnd-joel";
                 audience := "coffee_api";
                 clientId := "Q3OOJUkbDk1guLXFPqFMtmuZVqm9EAPq";
                 callbackURL := "http://localhost:8100" |} |}.

(** ** Characters and strings *)

Definition in_range (lo hi : nat) (c : ascii) : bool :=
  let n := nat_of_ascii c in (lo <=? n)%nat && (n <=? hi)%nat.

Definition is_digit (c : ascii) : bool := in_range 48 57 c.
Definition is_upper (c : ascii) : bool := in_range 65 90 c.
Definition is_lower (c : ascii) : bool := in_range 97 122 c.
Definition is_alpha (c : ascii) : bool := is_upper c || is_lower c.
Definition is_alnum (c : ascii) : bool := is_alpha c || is_digit c.

Definition is_empty (s : string) : bool :=
  match s with
  | EmptyString => true
  | String _ _ => false
  end.

Fixpoint string_forall (p : ascii -> bool) (s : string) : bool :=
  match s with
  | EmptyString => true
  | String c s' => p c && string_forall p s'
  end.

Fixpoint contains_char (c : ascii) (s : string) : bool :=
  match s with
  | EmptyString => false
  | String a s' => Ascii.eqb a c || contains_char c s'
  end.

Fixpoint last_char (s : string) : option ascii :=
  match s with
  | EmptyString => None
  | String c EmptyString => Some c
  | String _ s' => last_char s'
  end.

(** Cut a string at the first occurrence of [c], dropping that occurrence. *)
Fixpoint break_at (c : ascii) (s : string) : option (string * string) :=
  match s with
  | EmptyString => None
  | String a s' =>
      if Ascii.eqb a c then Some (EmptyString, s')
      else match break_at c s' with
           | Some (l, r) => Some (String a l, r)
           | None => None
           end
  end.

(** [s] without its prefix [p], when it starts with [p]. *)
Fixpoint strip_prefix (p s : string) : option string :=
  match p with
  | EmptyString => Some s
  | String a p' =>
      match s with
      | String b s' => if Ascii.eqb a b then strip_prefix p' s' else None
      | EmptyString => None
      end
  end.

(** The longest prefix free of characters satisfying [stop], and the rest. *)
Fixpoint span_until (stop : ascii -> bool) (s : string) : string * string :=
  match s with
  | EmptyString => (EmptyString, EmptyString)
  | String a s' =>
      if stop a then (EmptyString, s)
      else let (l, r) := span_until stop s' in (String a l, r)
  end.

(** Cut a string at every occurrence of [c]. *)
Fixpoint split_on (c : ascii) (s : string) : list string :=
  match s with
  | EmptyString => [EmptyString]
  | String a s' =>
      if Ascii.eqb a c then EmptyString :: split_on c s'
      else match split_on c s' with
           | l :: ls => String a l :: ls
           | [] => [String a EmptyString]
           end
  end.

Definition digit_value (c : ascii) : N := (N_of_ascii c - 48)%N.

Fixpoint decimal_from (acc : N) (s : string) : N :=
  match s with
  | EmptyString => acc
  | String c s' => decimal_from (10 * acc + digit_value c)%N s'
  end.

(** A non-empty run of decimal digits, as a number. *)
Definition decimal (s : string) : option N :=
  if is_empty s then None
  else if string_forall is_digit s then Some (decimal_from 0%N s)
  else None.

(** ** A URL grammar

    The part of the generic URI syntax (RFC 3986) with an authority and no
    user information, query or fragment:
    [scheme "://" host [ ":" port ] [ "/" path ]]. *)

Record parsed_url : Type := {
  u_scheme : string;
  u_host : string;
  u_port : option N;
  u_path : string
}.

(** [ALPHA *( ALPHA / DIGIT / "+" / "-" / "." )]. *)
Definition valid_scheme (s : string) : bool :=
  match s with
  | EmptyString => false
  | String c s' =>
      is_alpha c
      && string_forall
           (fun a => is_alnum a || Ascii.eqb a "+" || Ascii.eqb a "-" || Ascii.eqb a ".")
           s'
  end.

(** One dot-free piece of a host name: letters, digits and hyphens. *)
Definition valid_label (l : string) : bool :=
  negb (is_empty l)
  && string_forall (fun a => is_alnum a || Ascii.eqb a "-") l.

(** A host is a dot-separated run of labels; a dotted quad is one. *)
Definition valid_host (h : string) : bool :=
  forallb valid_label (split_on "." h).

(** A port is a decimal number that fits sixteen bits. *)
Definition valid_port (p : string) : option N :=
  match decimal p with
  | Some n => if (n <=? 65535)%N then Some n else None
  | None => None
  end.

Definition path_char (a : ascii) : bool :=
  is_alnum a || Ascii.eqb a "/" || Ascii.eqb a "-" || Ascii.eqb a "."
  || Ascii.eqb a "_" || Ascii.eqb a "~".

(** Empty, or a slash followed by path characters. *)
Definition valid_path (t : string) : bool :=
  match t with
  | EmptyString => true
  | String c _ => Ascii.eqb c "/" && string_forall path_char t
  end.

Definition parse_authority (sch auth path : string) : option parsed_url :=
  match break_at ":" auth with
  | None =>
      if valid_host auth
      then Some {| u_scheme := sch; u_host := auth; u_port := None; u_path := path |}
      else None
  | Some (h, p) =>
      match valid_port p with
      | Some n =>
          if valid_host h
          then Some {| u_scheme := sch; u_host := h; u_port := Some n; u_path := path |}
          else None
      | None => None
      end
  end.

Definition parse_url (s : string) : option parsed_url :=
  match break_at ":" s with
  | None => None
  | Some (sch, r) =>
      if valid_scheme sch then
        match strip_prefix "//" r with
        | Some r' =>
            let (auth, path) := span_until (fun a => Ascii.eqb a "/") r' in
            if valid_path path then parse_authority sch auth path else None
        | None => None
        end
      else None
  end.

Definition is_url (s : string) : bool :=
  match parse_url s with
  | Some _ => true
  | None => false
  end.

(** The text of a port as it stands in a URL. *)
Definition port_text_of (d : option string) : string :=
  match d with
  | Some t => String ":" t
  | None => EmptyString
  end.

(** The string at path [p] of [v], parsed as a URL. *)
Definition field_url (p : list string) (v : value) : option parsed_url :=
  match get_string p v with
  | Some s => parse_url s
  | None => None
  end.

(** The four numbers of a dotted quad. *)
Definition octet (s : string) : option N :=
  match decimal s with
  | Some n => if (n <=? 255)%N then Some n else None
  | None => None
  end.

Fixpoint octets (l : list string) : option (list N) :=
  match l with
  | [] => Some []
  | s :: l' =>
      match octet s, octets l' with
      | Some n, Some ns => Some (n :: ns)
      | _, _ => None
      end
  end.

Definition ipv4 (h : string) : option (list N) :=
  match octets (split_on "." h) with
  | Some ns => if (List.length ns =? 4)%nat then Some ns else None
  | None => None
  end.

(** A host that names the machine itself: [localhost] or an address in
    127.0.0.0/8. *)
Definition is_loopback (h : string) : bool :=
  String.eqb h "localhost"
  || match ipv4 h with
     | Some (a :: _) => (a =? 127)%N
     | _ => false
     end.

(** A label that can be put in front of a domain suffix: letters, digits and
    inner hyphens, at most 63 characters. *)
Definition is_dns_label (l : string) : bool :=
  valid_label l
  && (String.length l <=? 63)%nat
  && match l with
     | String c _ => negb (Ascii.eqb c "-")
     | EmptyString => false
     end
  && match last_char l with
     | Some c => negb (Ascii.eqb c "-")
     | None => false
     end.

(** ** Evaluating and importing the module *)

(** [l] with the value of its property [k] replaced where it stands; a list
    without [k] is left as it is. *)
Fixpoint update {A : Type} (k : string) (x : A) (l : list (string * A))
  : list (string * A) :=
  match l with
  | [] => []
  | (k', y) :: l' =>
      if String.eqb k k' then (k', x) :: l' else (k', y) :: update k x l'
  end.

(** [v.k1.k2... = x]. TypeScript accepts the assignment only where the
    inferred type has the property, so a missing property, a property of a
    primitive and the empty path (which would rebind the constant itself)
    are refused. *)
Fixpoint set_path (p : list string) (x : value) (v : value) : option value :=
  match p, v with
  | k :: p', VObj fs =>
      match assoc k fs with
      | Some sub =>
          match p' with
          | [] => Some (VObj (update k x fs))
          | _ :: _ =>
              match set_path p' x sub with
              | Some sub' => Some (VObj (update k sub' fs))
              | None => None
              end
          end
      | None => None
      end
  | _, _ => None
  end.

(** [p] leads to [q] or to something above [q]. *)
Fixpoint prefix_of (p q : list string) : bool :=
  match p, q with
  | [], _ => true
  | a :: p', b :: q' => String.eqb a b && prefix_of p' q'
  | _ :: _, [] => false
  end.

(** An assignment at [q] can show in a read at [p]: one of the two paths
    runs through the other. *)
Definition touches (q p : list string) : bool :=
  prefix_of q p || prefix_of p q.

Section Evaluation.

(** Whatever surrounds the module when it is evaluated: the global scope,
    the build flags, the importing module. *)
Variable Ambient : Type.

(** The module body is the single statement
    [export const environment = { ... }]: it binds one export to the
    literal and reads nothing of its surroundings. *)
Definition evaluate_module (a : Ambient) : list (string * value) :=
  [("environment", environment)].

(** A module instance: its namespace once evaluated, and how many times
    the body has run. *)
Record module_state : Type := {
  namespace : option (list (string * value));
  evaluations : nat
}.

Definition not_loaded : module_state :=
  {| namespace := None; evaluations := 0 |}.

(** What the language lets an importing module do with the export. The
    binding is constant, the object it holds is an ordinary one: the file
    neither freezes it nor marks its properties read-only. *)
Inductive op : Type :=
| ImportModule
| ReadField (path : list string)
| WriteField (path : list string) (x : value).

(** The operation is an assignment that can show in a read at [p]. *)
Definition op_touches (p : list string) (o : op) : bool :=
  match o with
  | WriteField q _ => touches q p
  | _ => false
  end.

(** [environment.k1.k2...] in a namespace. *)
Definition export_field (ns : list (string * value)) (p : list string)
  : option value :=
  match assoc "environment" ns with
  | Some v => get_path p v
  | None => None
  end.

(** The same through a module instance; nothing before it is loaded. *)
Definition read_export (st : module_state) (p : list string) : option value :=
  match namespace st with
  | Some ns => export_field ns p
  | None => None
  end.

(** [environment.k1.k2... = x] through a module instance. *)
Definition write_export (st : module_state) (p : list string) (x : value)
  : option module_state :=
  match namespace st with
  | Some ns =>
      match assoc "environment" ns with
      | Some v =>
          match set_path p x v with
          | Some v' =>
              Some {| namespace := Some (update "environment" v' ns);
                      evaluations := evaluations st |}
          | None => None
          end
      | None => None
      end
  | None => None
  end.

(** One operation. The first import runs the body; a later one finds the
    module already evaluated and reuses its namespace. A write that is
    refused leaves the instance as it was. *)
Definition step (a : Ambient) (st : module_state) (o : op)
  : module_state * option value :=
  match o with
  | ImportModule =>
      match namespace st with
      | Some _ => (st, read_export st [])
      | None =>
          let st' := {| namespace := Some (evaluate_module a);
                        evaluations := S (evaluations st) |} in
          (st', read_export st' [])
      end
  | ReadField p => (st, read_export st p)
  | WriteField p x =>
      match write_export st p x with
      | Some st' => (st', Some x)
      | None => (st, None)
      end
  end.

Fixpoint run (st : module_state) (trace : list (Ambient * op)) : module_state :=
  match trace with
  | [] => st
  | (a, o) :: trace' => run (fst (step a st o)) trace'
  end.

End Evaluation.

Arguments evaluate_module {Ambient} a.
Arguments step {Ambient} a st o.
Arguments run {Ambient} st trace.

(** A module instance whose body has run once, whose namespace holds the
    one export, and whose record has the property [Q]. *)
Definition live (Q : value -> Prop) (st : module_state) : Prop :=
  exists v, namespace st = Some [("environment", v)]
            /\ evaluations st = 1 /\ Q v.

(** ** Comparing two records *)

(** Every leaf of a value with the path that reaches it and the literal it
    holds. *)
Fixpoint literals (v : value) : list (list string * value) :=
  match v with
  | VObj fs =>
      flat_map
        (fun kv => map (fun pl => (fst kv :: fst pl, snd pl)) (literals (snd kv)))
        fs
  | _ => [([], v)]
  end.

Definition literal_eqb (x y : value) : bool :=
  match x, y with
  | VBool a, VBool b => Bool.eqb a b
  | VStr s, VStr t => String.eqb s t
  | _, _ => false
  end.

(** The paths, in order, at which two records of one shape hold different
    literals. *)
Definition differing_leaves (v w : value) : list (list string) :=
  map (fun xy => fst (fst xy))
    (filter (fun xy => negb (literal_eqb (snd (fst xy)) (snd (snd xy))))
       (combine (literals v) (literals w))).

(** ** Structural induction on values *)

Section ValueInduction.

Variable P : value -> Prop.
Hypothesis HBool : forall b, P (VBool b).
Hypothesis HStr : forall s, P (VStr s).
Hypothesis HObj :
  forall fs, Forall (fun kv => P (snd kv)) fs -> P (VObj fs).

Fixpoint value_nested_ind (v : value) : P v :=
  match v with
  | VBool b => HBool b
  | VStr s => HStr s
  | VObj fs =>
      HObj fs
        ((fix each (l : list (string * value))
            : Forall (fun kv => P (snd kv)) l :=
            match l with
            | [] => Forall_nil _
            | kv :: l' => Forall_cons kv (value_nested_ind (snd kv)) (each l')
            end) fs)
  end.

End ValueInduction.

(** ** Tactics *)

(** Take an equation between shapes apart, down to the leaves. *)
Ltac invert_shape :=
  repeat match goal with
  | H : TObject _ = TObject _ |- _ => injection H as H
  | H : map _ ?l = [] |- _ => destruct l; [clear H | discriminate H]
  | H : map _ ?l = _ :: _ |- _ =>
      destruct l as [|[? ?] ?]; [discriminate H|];
      cbn [map fst snd] in H; injection H as ? ? H; subst
  | H : shape ?v = TBoolean |- _ => destruct v; try discriminate H; clear H
  | H : shape ?v = TString |- _ => destruct v; try discriminate H; clear H
  | H : shape ?v = TObject _ |- _ =>
      destruct v; try discriminate H; cbn [shape] in H
  end.

(** * Lemmas *)

(** ** Strings: cutting and gluing back *)

Lemma break_at_glue (c : ascii) (s l r : string) :
  break_at c s = Some (l, r) ->
  s = l ++ String c r /\ contains_char c l = false.
Proof.
  revert l r. induction s as [|a s IH]; intros l r H; cbn in H.
  - discriminate.
  - destruct (Ascii.eqb a c) eqn:E.
    + apply Ascii.eqb_eq in E. subst a. inversion H; subst. split; reflexivity.
    + destruct (break_at c s) as [[l' r']|]; [|discriminate].
      inversion H; subst. destruct (IH l' r eq_refl) as [-> Hl].
      split; [reflexivity|]. cbn. now rewrite E.
Qed.

Lemma break_at_none (c : ascii) (s : string) :
  break_at c s = None <-> contains_char c s = false.
Proof.
  induction s as [|a s IH]; cbn.
  - split; reflexivity.
  - destruct (Ascii.eqb a c); cbn.
    + split; discriminate.
    + destruct (break_at c s) as [[l r]|].
      * split; [discriminate|]. intros H. apply IH in H. discriminate.
      * split; [|reflexivity]. intros _. now apply IH.
Qed.

Lemma strip_prefix_glue (p s r : string) :
  strip_prefix p s = Some r -> s = p ++ r.
Proof.
  revert s. induction p as [|a p IH]; intros s H; cbn in H.
  - now inversion H.
  - destruct s as [|b s]; [discriminate|].
    destruct (Ascii.eqb a b) eqn:E; [|discriminate].
    apply Ascii.eqb_eq in E. subst b. cbn. f_equal. now apply IH.
Qed.

Lemma span_until_glue (stop : ascii -> bool) (s l r : string) :
  span_until stop s = (l, r) ->
  s = l ++ r /\ string_forall (fun a => negb (stop a)) l = true.
Proof.
  revert l r. induction s as [|a s IH]; intros l r H; cbn in H.
  - inversion H; subst. split; reflexivity.
  - destruct (stop a) eqn:E.
    + inversion H; subst. split; reflexivity.
    + destruct (span_until stop s) as [l' r'].
      inversion H; subst. destruct (IH l' r eq_refl) as [-> Hl].
      split; [reflexivity|]. cbn. now rewrite E, Hl.
Qed.

Lemma append_assoc (s t u : string) : (s ++ t) ++ u = s ++ (t ++ u).
Proof.
  induction s as [|a s IH]; cbn; [reflexivity|]. now rewrite IH.
Qed.

Lemma contains_char_app (c : ascii) (s t : string) :
  contains_char c (s ++ t) = contains_char c s || contains_char c t.
Proof.
  induction s as [|a s IH]; cbn; [reflexivity|].
  now rewrite IH, orb_assoc.
Qed.

(** ** The URL grammar accepts only what it spells out *)

(** A parsed URL is its scheme, [://], its host, its port if any and its
    path, glued in that order; the port is the digits read as a number. *)
Lemma parse_url_sound (s : string) (u : parsed_url) :
  parse_url s = Some u ->
  exists d : option string,
    s = u_scheme u ++ String ":" ("//" ++ u_host u ++ port_text_of d ++ u_path u)
    /\ valid_scheme (u_scheme u) = true
    /\ valid_host (u_host u) = true
    /\ valid_path (u_path u) = true
    /\ u_port u = match d with
                  | Some t => valid_port t
                  | None => None
                  end
    /\ (u_port u = None -> d = None).
Proof.
  unfold parse_url. intros H.
  destruct (break_at ":" s) as [[sch r]|] eqn:Hb; [|discriminate].
  apply break_at_glue in Hb. destruct Hb as [-> _].
  destruct (valid_scheme sch) eqn:Hs; [|discriminate].
  destruct (strip_prefix "//" r) as [r'|] eqn:Hp; [|discriminate].
  apply strip_prefix_glue in Hp. subst r.
  destruct (span_until (fun a => Ascii.eqb a "/") r') as [auth path] eqn:Hsp.
  apply span_until_glue in Hsp. destruct Hsp as [-> _].
  destruct (valid_path path) eqn:Hpath; [|discriminate].
  unfold parse_authority in H.
  destruct (break_at ":" auth) as [[h p]|] eqn:Ha.
  - apply break_at_glue in Ha. destruct Ha as [-> _].
    destruct (valid_port p) as [n|] eqn:Hport; [|discriminate].
    destruct (valid_host h) eqn:Hh; [|discriminate].
    inversion H; subst; cbn. exists (Some p). cbn.
    repeat split; auto.
    + now rewrite !append_assoc.
    + discriminate.
  - destruct (valid_host auth) eqn:Hh; [|discriminate].
    inversion H; subst; cbn. exists None. cbn. repeat split; auto.
Qed.

(** Whatever the grammar accepts has a colon and a slash in it. *)
Lemma is_url_separators (s : string) :
  is_url s = true ->
  contains_char ":" s = true /\ contains_char "/" s = true.
Proof.
  unfold is_url. destruct (parse_url s) as [u|] eqn:H; [|discriminate].
  intros _. destruct (parse_url_sound s u H) as (d & -> & _).
  rewrite !contains_char_app. cbn. split; now rewrite orb_true_r.
Qed.

(** ** Host names and labels *)

Lemma string_forall_excludes (p : ascii -> bool) (c : ascii) (l : string) :
  string_forall p l = true -> p c = false -> contains_char c l = false.
Proof.
  intros Hl Hc. induction l as [|a l IH]; cbn in *; [reflexivity|].
  apply andb_true_iff in Hl. destruct Hl as [Ha Hl].
  rewrite (IH Hl), orb_false_r.
  destruct (Ascii.eqb a c) eqn:E; [|reflexivity].
  apply Ascii.eqb_eq in E. subst a. congruence.
Qed.

Lemma split_on_glue (c : ascii) (l r : string) :
  contains_char c l = false ->
  split_on c (l ++ String c r) = l :: split_on c r.
Proof.
  induction l as [|a l IH]; cbn; intros H.
  - now rewrite Ascii.eqb_refl.
  - apply orb_false_iff in H. destruct H as [E H].
    rewrite E, (IH H). reflexivity.
Qed.

(** A label has no dot in it. *)
Lemma valid_label_no_dot (l : string) :
  valid_label l = true -> contains_char "." l = false.
Proof.
  unfold valid_label. intros H. apply andb_true_iff in H. destruct H as [_ H].
  eapply string_forall_excludes; [exact H|reflexivity].
Qed.

(** Putting a label and a dot in front of a host gives a host again, and
    nothing but a host. *)
Lemma valid_host_prefix (l h : string) :
  valid_label l = true ->
  valid_host (l ++ String "." h) = valid_host h.
Proof.
  intros H. unfold valid_host.
  rewrite (split_on_glue "." l h (valid_label_no_dot l H)).
  cbn. now rewrite H.
Qed.

(** ** Shapes, leaves and the inferred type *)

(** The leaves of a value, with their types, depend on its shape alone. *)
Lemma leaves_shape (v : value) : leaves v = ty_leaves (shape v).
Proof.
  induction v as [b|s|fs IH] using value_nested_ind; try reflexivity.
  cbn [leaves shape ty_leaves].
  induction IH as [|kv fs Hkv _ IHfs]; cbn; [reflexivity|].
  now rewrite Hkv, IHfs.
Qed.

Lemma same_shape_same_leaves (v w : value) :
  shape v = shape w -> leaves v = leaves w.
Proof.
  intros H. now rewrite !leaves_shape, H.
Qed.

(** Every record of the inferred type has the shape of the exported one. *)
Lemma shape_to_value (e : Environment) : shape (to_value e) = shape environment.
Proof. reflexivity. Qed.

Lemma of_value_to_value (e : Environment) : of_value (to_value e) = Some e.
Proof. destruct e as [p a [u au c cb]]. reflexivity. Qed.

(** A value with the shape of the exported record is a record of the
    inferred type: it differs from the exported one in its six literals at
    most. *)
Lemma same_shape_to_value (v : value) :
  shape v = shape environment -> exists e : Environment, v = to_value e.
Proof.
  intros H. cbn in H. invert_shape.
  match goal with
  | |- exists _, VObj [(_, VBool ?p); (_, VStr ?a);
         (_, VObj [(_, VStr ?u); (_, VStr ?au); (_, VStr ?c); (_, VStr ?cb)])] = _ =>
      exists {| production := p; apiServerUrl := a;
                auth0 := {| url := u; audience := au;
                            clientId := c; callbackURL := cb |} |}
  end.
  reflexivity.
Qed.

(** ** Importing, reading and writing *)

Lemma assoc_update_same {A : Type} (k : string) (x y : A) (l : list (string * A)) :
  assoc k l = Some y -> assoc k (update k x l) = Some x.
Proof.
  induction l as [|[k0 z] l IH]; cbn; [discriminate|].
  destruct (String.eqb k k0) eqn:E; cbn; rewrite E; [reflexivity|exact IH].
Qed.

Lemma assoc_update_other {A : Type} (k k' : string) (x : A) (l : list (string * A)) :
  String.eqb k k' = false -> assoc k (update k' x l) = assoc k l.
Proof.
  intros H. induction l as [|[k0 z] l IH]; cbn; [reflexivity|].
  destruct (String.eqb k' k0) eqn:E; cbn.
  - apply String.eqb_eq in E. subst k0. now rewrite H.
  - destruct (String.eqb k k0); [reflexivity|exact IH].
Qed.

Lemma map_fst_update {A : Type} (k : string) (x : A) (l : list (string * A)) :
  map fst (update k x l) = map fst l.
Proof.
  induction l as [|[k0 z] l IH]; cbn; [reflexivity|].
  destruct (String.eqb k k0); cbn; [reflexivity|now rewrite IH].
Qed.

(** An assignment adds no property and removes none. *)
Lemma set_path_keys (q : list string) (x v v' : value) :
  set_path q x v = Some v' -> keys v' = keys v.
Proof.
  destruct q as [|k q']; [discriminate|].
  destruct v as [b|s|fs]; try discriminate.
  cbn [set_path]. destruct (assoc k fs) as [sub|]; [|discriminate].
  destruct q' as [|k1 q''].
  - intros H. inversion H. cbn. apply map_fst_update.
  - destruct (set_path (k1 :: q'') x sub) as [sub'|]; [|discriminate].
    intros H. inversion H. cbn. apply map_fst_update.
Qed.

(** An assignment shows only in reads whose path it touches. *)
Lemma get_set_disjoint (q : list string) (x : value) :
  forall (p : list string) (v v' : value),
    touches q p = false ->
    set_path q x v = Some v' ->
    get_path p v' = get_path p v.
Proof.
  induction q as [|k q' IH]; intros p v v' Ht Hs; [discriminate|].
  destruct p as [|k0 p'].
  { unfold touches in Ht. cbn in Ht. discriminate. }
  destruct v as [b|s|fs]; try discriminate.
  cbn [set_path] in Hs. destruct (assoc k fs) as [sub|] eqn:Ha; [|discriminate].
  unfold touches in Ht. cbn [prefix_of] in Ht.
  destruct (String.eqb k0 k) eqn:E.
  - apply String.eqb_eq in E. subst k0. rewrite String.eqb_refl in Ht.
    cbn [andb] in Ht. destruct q' as [|k1 q'']; [discriminate|].
    destruct (set_path (k1 :: q'') x sub) as [sub'|] eqn:Hs'; [|discriminate].
    inversion Hs; subst v'. cbn [get_path get_field].
    rewrite (assoc_update_same k sub' sub fs Ha), Ha.
    apply (IH p' sub sub' Ht Hs').
  - assert (Hv : exists y, v' = VObj (update k y fs)).
    { destruct q' as [|k1 q''].
      - inversion Hs. now exists x.
      - destruct (set_path (k1 :: q'') x sub) as [sub'|]; [|discriminate].
        inversion Hs. now exists sub'. }
    destruct Hv as [y ->]. cbn [get_path get_field].
    now rewrite (assoc_update_other k0 k y fs E).
Qed.

(** What an assignment has written is what the next read finds. *)
Lemma get_set_same (q : list string) (x : value) :
  forall v v' : value, set_path q x v = Some v' -> get_path q v' = Some x.
Proof.
  induction q as [|k q' IH]; intros v v' Hs; [discriminate|].
  destruct v as [b|s|fs]; try discriminate.
  cbn [set_path] in Hs. destruct (assoc k fs) as [sub|] eqn:Ha; [|discriminate].
  destruct q' as [|k1 q''].
  - inversion Hs. cbn. now rewrite (assoc_update_same k x sub fs Ha).
  - destruct (set_path (k1 :: q'') x sub) as [sub'|] eqn:Hs'; [|discriminate].
    inversion Hs. cbn [get_path get_field].
    rewrite (assoc_update_same k sub' sub fs Ha). apply (IH sub sub' Hs').
Qed.

Section Invariant.

Variable Ambient : Type.

(** A property of the record, and the operations under which it is to be
    kept. *)
Variable Q : value -> Prop.
Variable allowed : op -> bool.

Hypothesis Q_initial : Q environment.
Hypothesis Q_write :
  forall q x v v',
    allowed (WriteField q x) = true -> Q v -> set_path q x v = Some v' -> Q v'.

Implicit Types (a : Ambient) (st : module_state) (o : op).
Implicit Types (ops : list (Ambient * op)).

Lemma run_app st ops ops' : run st (ops ++ ops') = run (run st ops) ops'.
Proof.
  revert st. induction ops as [|[a o] ops IH]; intros st; cbn.
  - reflexivity.
  - apply IH.
Qed.

Lemma step_live a st o : allowed o = true -> live Q st -> live Q (fst (step a st o)).
Proof.
  intros Ho (v & Hns & Hev & Hq). destruct o as [|p|q x]; cbn.
  - rewrite Hns. cbn. now exists v.
  - now exists v.
  - unfold write_export. rewrite Hns. cbn.
    destruct (set_path q x v) as [v'|] eqn:Hs; cbn.
    + exists v'. repeat split; [assumption|]. exact (Q_write q x v v' Ho Hq Hs).
    + now exists v.
Qed.

Lemma step_fresh a o :
  fst (step a not_loaded o) = not_loaded \/ live Q (fst (step a not_loaded o)).
Proof.
  destruct o as [|p|q x]; cbn; [right|now left|now left].
  exists environment. repeat split. exact Q_initial.
Qed.

Lemma run_live st ops :
  forallb (fun ao => allowed (snd ao)) ops = true -> live Q st -> live Q (run st ops).
Proof.
  revert st. induction ops as [|[a o] ops IH]; intros st Hall Hst; cbn in *.
  - exact Hst.
  - apply andb_true_iff in Hall. destruct Hall as [Ho Hall].
    apply IH; [exact Hall|]. now apply step_live.
Qed.

Lemma run_fresh_or_live ops :
  forallb (fun ao => allowed (snd ao)) ops = true ->
  run not_loaded ops = not_loaded \/ live Q (run not_loaded ops).
Proof.
  induction ops as [|[a o] ops IH]; cbn; intros Hall; [now left|].
  apply andb_true_iff in Hall. destruct Hall as [Ho Hall].
  destruct (step_fresh a o) as [-> | H].
  - now apply IH.
  - right. now apply run_live.
Qed.

(** After an import the module is live, and stays so. *)
Lemma run_import_live a0 (before after : list (Ambient * op)) :
  forallb (fun ao => allowed (snd ao)) (before ++ (a0, ImportModule) :: after) = true ->
  live Q (run not_loaded (before ++ (a0, ImportModule) :: after)).
Proof.
  rewrite forallb_app. intros Hall.
  apply andb_true_iff in Hall. destruct Hall as [Hb Ha].
  cbn [forallb] in Ha. apply andb_true_iff in Ha. destruct Ha as [_ Ha].
  rewrite run_app. cbn [run]. apply run_live; [exact Ha|].
  destruct (run_fresh_or_live before Hb) as [-> | H].
  - exists environment. repeat split. exact Q_initial.
  - destruct H as (v & Hns & Hev & Hq). cbn. rewrite Hns. cbn. now exists v.
Qed.

End Invariant.

(** * Theorems *)

(** C1. The exported record exposes exactly six fields and no others:
    [production] (boolean), [apiServerUrl] (string) and, nested under
    [auth0], the four strings [url], [audience], [clientId] and
    [callbackURL]. *)
Theorem environment_six_fields :
  leaves environment =
    [ (["production"], TBoolean);
      (["apiServerUrl"], TString);
      (["auth0"; "url"], TString);
      (["auth0"; "audience"], TString);
      (["auth0"; "clientId"], TString);
      (["auth0"; "callbackURL"], TString) ]
  /\ keys environment = ["production"; "apiServerUrl"; "auth0"]
  /\ option_map shape (get_field "production" environment) = Some TBoolean
  /\ option_map shape (get_field "apiServerUrl" environment) = Some TString
  /\ option_map shape (get_field "auth0" environment) =
       Some (TObject [ ("url", TString); ("audience", TString);
                       ("clientId", TString); ("callbackURL", TString) ])
  /\ NoDup (map fst (leaves environment))
  /\ of_value environment = Some environment_record.
Proof.
  repeat split; try reflexivity.
  cbn. repeat constructor; cbn; intuition discriminate.
Qed.




(** C3. [apiServerUrl] and [auth0.callbackURL] are syntactically valid URLs:
    each parses into a scheme, a host and a port. *)
Theorem server_and_callback_are_urls :
  option_map is_url (get_string ["apiServerUrl"] environment) = Some true
  /\ option_map is_url (get_string ["auth0"; "callbackURL"] environment) = Some true
  /\ field_url ["apiServerUrl"] environment =
       Some {| u_scheme := "http"; u_host := "127.0.0.1";
               u_port := Some 5000%N; u_path := "" |}
  /\ field_url ["auth0"; "callbackURL"] environment =
       Some {| u_scheme := "http"; u_host := "localhost";
               u_port := Some 8100%N; u_path := "" |}.
Proof.
  repeat split; vm_compute; reflexivity.
Qed.

(** C6. Evaluating the module is pure and deterministic: under any two
    surroundings it binds the one export to the same literal, so the records
    obtained are equal, field by field. *)
Theorem module_evaluation_deterministic :
  forall (A1 A2 : Type) (a1 : A1) (a2 : A2),
    evaluate_module a1 = [("environment", environment)]
    /\ evaluate_module a1 = evaluate_module a2
    /\ (forall p : list string,
          export_field (evaluate_module a1) p = get_path p environment
          /\ export_field (evaluate_module a1) p
             = export_field (evaluate_module a2) p).
Proof.
  intros A1 A2 a1 a2. repeat split.
Qed.

(** C7. The exported record is the development variant: [production] is
    false, [apiServerUrl] points at host 127.0.0.1, port 5000, and
    [auth0.callbackURL] at host localhost, port 8100, both loopback hosts. *)
Theorem environment_is_development :
  get_bool ["production"] environment = Some false
  /\ option_map (fun u => (u_host u, u_port u, is_loopback (u_host u)))
       (field_url ["apiServerUrl"] environment)
     = Some ("127.0.0.1", Some 5000%N, true)
  /\ option_map (fun u => (u_host u, u_port u, is_loopback (u_host u)))
       (field_url ["auth0"; "callbackURL"] environment)
     = Some ("localhost", Some 8100%N, true).
Proof.
  repeat split; vm_compute; reflexivity.
Qed.

(** C8. [auth0.url] is not a URL: its value, dev-0occ77jb, has no scheme
    separator, no dot and no slash in it; it is a bare label, and put with a
    dot in front of a domain suffix it makes a host exactly when the suffix
    is one. *)
Theorem auth0_url_is_bare_prefix :
  get_string ["auth0"; "url"] environment = Some "dev-0occ77jb"
  /\ option_map is_url (get_string ["auth0"; "url"] environment) = Some false
  /\ option_map (contains_char ":") (get_string ["auth0"; "url"] environment) = Some false
  /\ option_map (contains_char ".") (get_string ["auth0"; "url"] environment) = Some false
  /\ option_map (contains_char "/") (get_string ["auth0"; "url"] environment) = Some false
  /\ option_map is_dns_label (get_string ["auth0"; "url"] environment) = Some true
  /\ (forall suffix : string,
        option_map (fun pre => valid_host (pre ++ "." ++ suffix))
          (get_string ["auth0"; "url"] environment)
        = Some (valid_host suffix)).
Proof.
  do 6 (split; [vm_compute; reflexivity|]).
  intros suffix.
  change (get_string ["auth0"; "url"] environment) with (Some "dev-0occ77jb").
  cbn [option_map]. apply f_equal.
  apply (valid_host_prefix "dev-0occ77jb"). vm_compute; reflexivity.
Qed.

(** C9. Every string field of the record is a non-empty literal, and
    [auth0.clientId] is exactly 32 characters, each an ASCII letter or
    digit. *)
Theorem string_fields_nonempty :
  map fst (string_leaves environment) =
    [ ["apiServerUrl"]; ["auth0"; "url"]; ["auth0"; "audience"];
      ["auth0"; "clientId"]; ["auth0"; "callbackURL"] ]
  /\ Forall (fun ps => get_string (fst ps) environment = Some (snd ps))
       (string_leaves environment)
  /\ Forall (fun ps => snd ps <> "") (string_leaves environment)
  /\ option_map String.length (get_string ["auth0"; "clientId"] environment) = Some 32
  /\ option_map (string_forall is_alnum) (get_string ["auth0"; "clientId"] environment)
     = Some true.
Proof.
  repeat split; try (vm_compute; reflexivity).
  - cbn. repeat constructor.
  - cbn. repeat constructor; discriminate.
Qed.

(** X1. The record kept in the comment and the exported record have the
    same property names, nesting and types, and of their six literals
    exactly three differ: [auth0.url], [auth0.audience] and
    [auth0.clientId]. *)
Theorem commented_and_exported_same_shape :
  shape environment_commented = shape environment
  /\ leaves environment_commented = leaves environment
  /\ map fst (literals environment_commented) = map fst (leaves environment)
  /\ differing_leaves environment_commented environment =
       [ ["auth0"; "url"]; ["auth0"; "audience"]; ["auth0"; "clientId"] ]
  /\ of_value environment_commented = Some environment_commented_record.
Proof.
  split; [reflexivity|].
  split; [apply same_shape_same_leaves; reflexivity|].
  repeat split.
Qed.
